(** * Daily vehicle summary: the aggregation of [scripts/daily_aggregation.py]

    A shallow embedding of [haversine_km], [compute_summary],
    [upsert_summary] and [run], and the properties of the
    telemetry-to-summary reduction and of the batch driver.

    Number model.  Python's [float] values are idealised as real numbers
    ([R]): [math.sin], [math.cos], [math.sqrt] and [math.atan2] are the
    mathematical functions, [+ - * /] are exact and [round(x, 2)] is
    round-half-to-even on the second decimal.  Binary64 rounding error,
    infinities and NaN are outside this model.  Python's [int] counters are
    [Z]; a [datetime] is its number of microseconds since the epoch. *)

From Stdlib Require Import Reals Lra Lia ZArith List Bool.
From Stdlib Require Import Sorted Permutation.
Import ListNotations.

Open Scope R_scope.

(** ** Data model *)

(** A calendar date, the [target_date] argument.  It is only copied into
    the summary. *)
Record date := mkDate { year : Z; month : Z; day : Z }.

(** One row of [fetch_daily_telemetry]: the columns
    [ts, latitude, longitude, speed, engine_status].  [ts] counts
    microseconds (the resolution of [datetime]); the numeric columns are
    the values [float(row[...])] yields. *)
Record point := mkPoint {
  ts : Z;
  latitude : R;
  longitude : R;
  speed : R;
  engine_status : bool
}.

(** The dictionary returned by [compute_summary], one field per key. *)
Record summary := mkSummary {
  vehicle_id : Z;
  summary_date : date;
  total_distance_km : R;
  avg_speed : R;
  max_speed : R;
  total_points : Z;
  speeding_violations : Z;
  critical_violations : Z;
  engine_off_moving : Z;
  total_driving_minutes : R
}.

(** ** Library functions the script calls *)

Module Py.

(** [math.radians(x)]. *)
Definition radians (x : R) : R := x * (PI / 180).

(** [math.atan2(y, x)]: the angle of the point [(x, y)], in (-pi, pi]. *)
Definition atan2 (y x : R) : R :=
  if Rlt_dec 0 x then atan (y / x)
  else if Rlt_dec x 0 then
    (if Rle_dec 0 y then atan (y / x) + PI else atan (y / x) - PI)
  else if Rlt_dec 0 y then PI / 2
  else if Rlt_dec y 0 then - (PI / 2)
  else 0.

(** The largest integer not above [x]. *)
Definition floor (x : R) : Z := (up x - 1)%Z.

(** [round(x)] to an integer, ties going to the even neighbour. *)
Definition round_half_even (x : R) : Z :=
  let f := floor x in
  let d := x - IZR f in
  if Rlt_dec d (1 / 2) then f
  else if Rlt_dec (1 / 2) d then (f + 1)%Z
  else if Z.even f then f else (f + 1)%Z.

(** [round(x, 2)]. *)
Definition round2 (x : R) : R := IZR (round_half_even (x * 100)) / 100.

(** [sum(l)]: left-to-right additions starting from 0. *)
Definition sum (l : list R) : R := fold_left Rplus l 0.

(** [max] of a non-empty sequence, first element [x0]: the running
    maximum is replaced by an item only when the item is greater. *)
Definition max_from (x0 : R) (l : list R) : R :=
  fold_left (fun m x => if Rgt_dec x m then x else m) l x0.

(** [timedelta.total_seconds()] of a difference of [us] microseconds. *)
Definition total_seconds (us : Z) : R := IZR us / 1000000.

(** [enumerate(l)]. *)
Definition enumerate {A : Type} (l : list A) : list (nat * A) :=
  combine (seq 0 (length l)) l.

End Py.

(** ** [haversine_km] *)

(** The term [a] of the haversine formula, as computed in the source. *)
Definition haversine_a (lat1 lon1 lat2 lon2 : R) : R :=
  let dlat := Py.radians (lat2 - lat1) in
  let dlon := Py.radians (lon2 - lon1) in
  sin (dlat / 2) ^ 2
  + cos (Py.radians lat1) * cos (Py.radians lat2) * sin (dlon / 2) ^ 2.

Definition haversine_km (lat1 lon1 lat2 lon2 : R) : R :=
  let R_earth := 6371 in
  let a := haversine_a lat1 lon1 lat2 lon2 in
  R_earth * 2 * Py.atan2 (sqrt a) (sqrt (1 - a)).

(** ** [compute_summary] *)

(** The local variables the loop of [compute_summary] updates.  They live
    in a module of their own because the local [engine_off_moving] shares
    its name with a key of the summary. *)
Module Loop.

Record state := mkState {
  total_distance : R;
  speeds : list R;
  speeding : Z;
  critical : Z;
  engine_off_moving : Z;
  driving_seconds : R
}.

(** The assignments before the loop. *)
Definition init : state :=
  {| total_distance := 0; speeds := []; speeding := 0; critical := 0;
     engine_off_moving := 0; driving_seconds := 0 |}.

End Loop.

(** One iteration of [for i, row in enumerate(rows)].  [rows[i - 1]] is
    read only when [i > 0], where the index is in range; the default of
    [nth] is never used (lemma [prev_in_range]). *)
Definition loop_body (rows : list point) (st : Loop.state)
    (ir : nat * point) : Loop.state :=
  let (i, row) := ir in
  let spd := speed row in
  let prev := nth (i - 1) rows row in
  {| Loop.speeds := Loop.speeds st ++ [spd];
     Loop.total_distance :=
       if (0 <? i)%nat then
         let dist := haversine_km (latitude prev) (longitude prev)
                                  (latitude row) (longitude row) in
         if Rlt_dec dist 50 then Loop.total_distance st + dist
         else Loop.total_distance st
       else Loop.total_distance st;
     Loop.critical :=
       if Rgt_dec spd 120 then (Loop.critical st + 1)%Z
       else Loop.critical st;
     Loop.speeding :=
       if Rgt_dec spd 120 then Loop.speeding st
       else if Rgt_dec spd 80 then (Loop.speeding st + 1)%Z
       else Loop.speeding st;
     Loop.engine_off_moving :=
       if negb (engine_status row) then
         (if Rgt_dec spd 0 then (Loop.engine_off_moving st + 1)%Z
          else Loop.engine_off_moving st)
       else Loop.engine_off_moving st;
     Loop.driving_seconds :=
       if (0 <? i)%nat && engine_status row then
         let delta := Py.total_seconds (ts row - ts prev) in
         if Rlt_dec delta 300 then Loop.driving_seconds st + delta
         else Loop.driving_seconds st
       else Loop.driving_seconds st |}.

(** The state of the local variables when the loop ends. *)
Definition loop_result (rows : list point) : Loop.state :=
  fold_left (loop_body rows) (Py.enumerate rows) Loop.init.

Definition compute_summary (vid : Z) (target_date : date)
    (rows : list point) : summary :=
  match rows with
  | [] =>
      {| vehicle_id := vid; summary_date := target_date;
         total_distance_km := 0; avg_speed := 0; max_speed := 0;
         total_points := 0; speeding_violations := 0;
         critical_violations := 0; engine_off_moving := 0;
         total_driving_minutes := 0 |}
  | _ :: _ =>
      let st := loop_result rows in
      {| vehicle_id := vid; summary_date := target_date;
         total_distance_km := Py.round2 (Loop.total_distance st);
         avg_speed :=
           match Loop.speeds st with
           | [] => 0
           | _ :: _ =>
               Py.round2 (Py.sum (Loop.speeds st)
                          / IZR (Z.of_nat (length (Loop.speeds st))))
           end;
         max_speed :=
           match Loop.speeds st with
           | [] => 0
           | s0 :: rest => Py.round2 (Py.max_from s0 rest)
           end;
         total_points := Z.of_nat (length rows);
         speeding_violations := Loop.speeding st;
         critical_violations := Loop.critical st;
         engine_off_moving := Loop.engine_off_moving st;
         total_driving_minutes := Py.round2 (Loop.driving_seconds st / 60) |}
  end.

(** ** The quantities the specification names *)

(** Sum of [f prev cur] over the consecutive pairs of [prev :: rest]. *)
Fixpoint pair_sum (f : point -> point -> R) (prev : point)
    (rest : list point) : R :=
  match rest with
  | [] => 0
  | cur :: rest' => f prev cur + pair_sum f cur rest'
  end.

(** Sum of [f] over the consecutive pairs (point i-1, point i) of [rows]. *)
Definition sum_pairs (f : point -> point -> R) (rows : list point) : R :=
  match rows with
  | [] => 0
  | first :: rest => pair_sum f first rest
  end.

(** Elapsed seconds between two consecutive points. *)
Definition gap_seconds (prev cur : point) : R :=
  Py.total_seconds (ts cur - ts prev).

(** Rule 5 of the aggregator: what a consecutive pair adds to the driving
    time.  The engine status is the one of the current point; a gap of 300
    seconds or more adds nothing. *)
Definition driving_contribution (prev cur : point) : R :=
  if engine_status cur then
    if Rlt_dec (gap_seconds prev cur) 300 then gap_seconds prev cur else 0
  else 0.

(** Great-circle distance between two points, in kilometres. *)
Definition pair_distance (prev cur : point) : R :=
  haversine_km (latitude prev) (longitude prev)
               (latitude cur) (longitude cur).

(** Rule 1 of the aggregator: what a consecutive pair adds to the
    distance.  A jump of 50 km or more adds nothing. *)
Definition distance_contribution (prev cur : point) : R :=
  if Rlt_dec (pair_distance prev cur) 50 then pair_distance prev cur else 0.

(** Rule 3 of the aggregator: the two violation tiers. *)
Definition is_critical (p : point) : Prop := speed p > 120.
Definition is_speeding (p : point) : Prop := 80 < speed p <= 120.

(** Rule 4 of the aggregator. *)
Definition is_engine_off_moving (p : point) : Prop :=
  engine_status p = false /\ speed p > 0.

(** Number of elements of [l] that satisfy a decidable property. *)
Definition count_if {A : Type} {P : A -> Prop}
    (dec : forall a, {P a} + {~ P a}) (l : list A) : Z :=
  Z.of_nat (length (filter (fun a => if dec a then true else false) l)).


(** [m] is the maximum of [l]: an element of [l] no other exceeds. *)
Definition is_maximum (m : R) (l : list R) : Prop :=
  In m l /\ forall x, In x l -> x <= m.


(** The end-to-end scenario of the specification: three points, 60
    seconds apart, the first at time [t0] (in microseconds). *)
Definition scenario (t0 : Z) : list point :=
  [ {| ts := t0; latitude := 10; longitude := 106;
       speed := 0; engine_status := false |};
    {| ts := t0 + 60000000; latitude := 10001 / 1000; longitude := 106;
       speed := 90; engine_status := true |};
    {| ts := t0 + 120000000; latitude := 10002 / 1000; longitude := 106;
       speed := 130; engine_status := true |} ].

Definition sample_date : date := {| year := 2026; month := 2; day := 17 |}.



(** Decision procedures for the properties counted above. *)
Definition is_critical_dec (p : point) :
  {is_critical p} + {~ is_critical p} := Rgt_dec (speed p) 120.

Definition is_speeding_dec (p : point) : {is_speeding p} + {~ is_speeding p}.
Proof.
  unfold is_speeding.
  destruct (Rlt_dec 80 (speed p)); [|right; tauto].
  destruct (Rle_dec (speed p) 120); [left; tauto | right; tauto].
Defined.

Definition is_engine_off_moving_dec (p : point) :
  {is_engine_off_moving p} + {~ is_engine_off_moving p}.
Proof.
  unfold is_engine_off_moving.
  destruct (engine_status p).
  - right; intros [H _]; discriminate.
  - destruct (Rgt_dec (speed p) 0); [left; tauto | right; tauto].
Defined.

(** ** The summary table and the batch driver *)

Definition date_eqb (d d' : date) : bool :=
  (year d =? year d')%Z && (month d =? month d')%Z && (day d =? day d')%Z.

(** The table [daily_vehicle_summary], as far as the script writes it: one
    record per row, holding the ten columns named in [upsert_summary].
    [created_at], which the statement sets to [NOW()], is left out. *)
Definition table : Type := list summary.

(** The conflict target of the upsert, the unique key of the table. *)
Definition key (r : summary) : Z * date := (vehicle_id r, summary_date r).

(** The row [r] has the key [(vid, d)]. *)
Definition has_key (vid : Z) (d : date) (r : summary) : bool :=
  (vehicle_id r =? vid)%Z && date_eqb (summary_date r) d.

(** [upsert_summary(conn, summary)]: [INSERT ... ON CONFLICT (vehicle_id,
    summary_date) DO UPDATE SET ...].  The row that has the key of
    [summary] gets its eight derived columns overwritten from [summary]
    (the [EXCLUDED] row); without such a row, [summary] is inserted. *)
Fixpoint upsert_summary (conn : table) (s : summary) : table :=
  match conn with
  | [] => [s]
  | r :: rest =>
      if has_key (vehicle_id s) (summary_date s) r then
        {| vehicle_id := vehicle_id r;
           summary_date := summary_date r;
           total_distance_km := total_distance_km s;
           avg_speed := avg_speed s;
           max_speed := max_speed s;
           total_points := total_points s;
           speeding_violations := speeding_violations s;
           critical_violations := critical_violations s;
           engine_off_moving := engine_off_moving s;
           total_driving_minutes := total_driving_minutes s |} :: rest
      else r :: upsert_summary rest s
  end.

(** The row stored under a key, if any. *)
Definition stored (conn : table) (vid : Z) (d : date) : option summary :=
  find (has_key vid d) conn.

(** The variables [run] updates: the table behind the connection and the
    two totals it logs. *)
Module Run.

Record state := mkState {
  conn : table;
  total_points : Z;
  total_violations : Z
}.

End Run.

(** One iteration of [for vid in vehicles].  [telemetry vid target_date]
    stands for [fetch_daily_telemetry(conn, vid, target_date)]: the rows
    come from the table [vehicle_telemetry], which the job only reads. *)
Definition run_vehicle (telemetry : Z -> date -> list point)
    (target_date : date) (st : Run.state) (vid : Z) : Run.state :=
  let rows := telemetry vid target_date in
  let summary := compute_summary vid target_date rows in
  {| Run.conn := upsert_summary (Run.conn st) summary;
     Run.total_points := (Run.total_points st + total_points summary)%Z;
     Run.total_violations :=
       (Run.total_violations st
        + (speeding_violations summary + critical_violations summary))%Z |}.

(** [run(target_date)], from the table [conn] the job finds.  [vehicles]
    stands for the result of [get_active_vehicles(conn)].  Logging is left
    out. *)
Definition run (telemetry : Z -> date -> list point) (vehicles : list Z)
    (conn : table) (target_date : date) : Run.state :=
  fold_left (run_vehicle telemetry target_date) vehicles
    {| Run.conn := conn; Run.total_points := 0;
       Run.total_violations := 0 |}.

(** ** Further notions used in the statements *)

(** [x] has at most two decimals. *)
Definition two_decimals (x : R) : Prop := exists n : Z, x * 100 = IZR n.

(** The timestamps of consecutive rows do not decrease, as the
    [ORDER BY ts ASC] of [fetch_daily_telemetry] provides. *)
Definition ts_le (p q : point) : Prop := (ts p <= ts q)%Z.

(** A point over the lower violation threshold. *)
Definition is_violation (p : point) : Prop := speed p > 80.

Definition is_violation_dec (p : point) :
  {is_violation p} + {~ is_violation p} := Rgt_dec (speed p) 80.

(** Sum of a list of integers. *)
Definition Zsum (l : list Z) : Z := fold_right Z.add 0%Z l.

(** Two rows of one place, a minute apart, both with the engine on. *)
Definition early_point : point :=
  {| ts := 0; latitude := 10; longitude := 106;
     speed := 40; engine_status := true |}.

Definition late_point : point :=
  {| ts := 60000000; latitude := 10; longitude := 106;
     speed := 40; engine_status := true |}.

(** A telemetry store with rows for vehicle 7 only, and two active
    vehicles. *)
Definition sample_telemetry (vid : Z) (d : date) : list point :=
  if (vid =? 7)%Z then scenario 0 else [].

Definition sample_vehicles : list Z := [7%Z; 8%Z].

(** ** Rounding *)

Lemma floor_IZR (n : Z) : Py.floor (IZR n) = n.
Proof.
  unfold Py.floor.
  rewrite <- (tech_up (IZR n) (n + 1)).
  - lia.
  - rewrite plus_IZR. lra.
  - rewrite plus_IZR. lra.
Qed.

Lemma round_half_even_IZR (n : Z) : Py.round_half_even (IZR n) = n.
Proof.
  unfold Py.round_half_even. rewrite floor_IZR.
  destruct (Rlt_dec (IZR n - IZR n) (1 / 2)); [reflexivity | lra].
Qed.

(** A number with at most two decimals is its own rounding. *)
Lemma round2_hundredths (n : Z) (x : R) :
  x * 100 = IZR n -> Py.round2 x = x.
Proof.
  intros H. unfold Py.round2. rewrite H, round_half_even_IZR. lra.
Qed.

Lemma round2_0 : Py.round2 0 = 0.
Proof. apply (round2_hundredths 0). lra. Qed.

(** ** The haversine distance *)

Lemma PI_bounds : 313 / 100 < PI < 315 / 100.
Proof.
  pose proof (PI_2_3_7_ineq 0) as [Hlo _].
  pose proof (PI_2_3_7_ineq 1) as [_ Hhi].
  unfold sum_f_R0, tg_alt, PI_2_3_7_tg, Ratan_seq in Hlo, Hhi.
  simpl in Hlo, Hhi.
  split; lra.
Qed.

Lemma radians_0 : Py.radians 0 = 0.
Proof. unfold Py.radians. lra. Qed.


Lemma atan2_0_1 : Py.atan2 0 1 = 0.
Proof.
  unfold Py.atan2. destruct (Rlt_dec 0 1); [|lra].
  replace (0 / 1) with 0 by lra. apply atan_0.
Qed.

(** [atan2 (sin t) (cos t)] gives [t] back in the right half-plane. *)
Lemma atan2_sin_cos (t : R) :
  - (PI / 2) < t < PI / 2 -> Py.atan2 (sin t) (cos t) = t.
Proof.
  intros Ht. unfold Py.atan2.
  destruct (Rlt_dec 0 (cos t)) as [_|Hc].
  - apply atan_tan. assumption.
  - exfalso. apply Hc. apply cos_gt_0; lra.
Qed.

Lemma haversine_a_self (lat lon : R) : haversine_a lat lon lat lon = 0.
Proof.
  unfold haversine_a. cbv zeta.
  replace (lat - lat) with 0 by lra. replace (lon - lon) with 0 by lra.
  rewrite radians_0. replace (0 / 2) with 0 by lra. rewrite sin_0. ring.
Qed.








(** ** The loop, field by field *)

Lemma count_if_cons {A : Type} {P : A -> Prop}
    (dec : forall a, {P a} + {~ P a}) (a : A) (l : list A) :
  count_if dec (a :: l)
  = ((if dec a then 1 else 0) + count_if dec l)%Z.
Proof.
  unfold count_if. cbn [filter].
  destruct (dec a); cbn [length]; lia.
Qed.

Lemma count_if_nil {A : Type} {P : A -> Prop}
    (dec : forall a, {P a} + {~ P a}) : count_if dec [] = 0%Z.
Proof. reflexivity. Qed.

Lemma count_if_bounds {A : Type} {P : A -> Prop}
    (dec : forall a, {P a} + {~ P a}) (l : list A) :
  (0 <= count_if dec l <= Z.of_nat (length l))%Z.
Proof.
  unfold count_if. split; [lia|].
  apply inj_le, filter_length_le.
Qed.

Lemma enumerate_rows {A : Type} (l : list A) :
  map snd (Py.enumerate l) = l.
Proof.
  unfold Py.enumerate. generalize 0%nat.
  induction l as [|a l IH]; intros k; simpl; [reflexivity|].
  now rewrite IH.
Qed.

(** The fields that only read the current row do not depend on the index
    or on [rows]. *)
Section PointwiseFields.

Variable rows : list point.

Lemma fold_speeds (irs : list (nat * point)) (st : Loop.state) :
  Loop.speeds (fold_left (loop_body rows) irs st)
  = Loop.speeds st ++ map speed (map snd irs).
Proof.
  revert st. induction irs as [|[i row] irs IH]; intros st; simpl.
  - now rewrite app_nil_r.
  - rewrite IH. simpl. now rewrite <- app_assoc.
Qed.

Lemma fold_critical (irs : list (nat * point)) (st : Loop.state) :
  Loop.critical (fold_left (loop_body rows) irs st)
  = (Loop.critical st + count_if is_critical_dec (map snd irs))%Z.
Proof.
  revert st. induction irs as [|[i row] irs IH]; intros st.
  - simpl. rewrite count_if_nil. lia.
  - simpl fold_left. rewrite IH. simpl map. rewrite count_if_cons.
    unfold loop_body. cbn [Loop.critical snd]. unfold is_critical_dec.
    destruct (Rgt_dec (speed row) 120); lia.
Qed.

Lemma fold_speeding (irs : list (nat * point)) (st : Loop.state) :
  Loop.speeding (fold_left (loop_body rows) irs st)
  = (Loop.speeding st + count_if is_speeding_dec (map snd irs))%Z.
Proof.
  revert st. induction irs as [|[i row] irs IH]; intros st.
  - simpl. rewrite count_if_nil. lia.
  - simpl fold_left. rewrite IH. simpl map. rewrite count_if_cons.
    unfold loop_body. cbn [Loop.speeding snd].
    destruct (is_speeding_dec row) as [[H1 H2]|H];
      destruct (Rgt_dec (speed row) 120);
      destruct (Rgt_dec (speed row) 80);
      try lia; try lra.
    exfalso. apply H. unfold is_speeding. lra.
Qed.

Lemma fold_engine_off_moving (irs : list (nat * point)) (st : Loop.state) :
  Loop.engine_off_moving (fold_left (loop_body rows) irs st)
  = (Loop.engine_off_moving st
     + count_if is_engine_off_moving_dec (map snd irs))%Z.
Proof.
  revert st. induction irs as [|[i row] irs IH]; intros st.
  - simpl. rewrite count_if_nil. lia.
  - simpl fold_left. rewrite IH. simpl map. rewrite count_if_cons.
    unfold loop_body. cbn [Loop.engine_off_moving snd].
    destruct (is_engine_off_moving_dec row) as [[H1 H2]|H].
    + rewrite H1. cbn [negb]. destruct (Rgt_dec (speed row) 0); [lia|lra].
    + destruct (engine_status row) eqn:E; cbn [negb]; [lia|].
      destruct (Rgt_dec (speed row) 0); [|lia].
      exfalso. apply H. split; assumption.
Qed.

End PointwiseFields.

(** The two fields that read [rows[i - 1]]. *)

Lemma seq_combine_cons (k : nat) (r : point) (rest : list point) :
  combine (seq k (length (r :: rest))) (r :: rest)
  = (k, r) :: combine (seq (S k) (length rest)) rest.
Proof. reflexivity. Qed.

(** [rows[i - 1]] at index [i = length pre + 1] of [pre ++ p :: ...]. *)
Lemma prev_at (pre : list point) (p : point) (rest : list point)
    (d : point) :
  nth (S (length pre) - 1) (pre ++ p :: rest) d = p.
Proof.
  replace (S (length pre) - 1)%nat with (length pre) by lia.
  apply nth_middle.
Qed.

(** The iteration at index [i = length pre + 1], whose previous row is
    [prev]. *)
Lemma body_total_distance (pre : list point) (prev cur : point)
    (rest : list point) (st : Loop.state) :
  Loop.total_distance
    (loop_body (pre ++ prev :: cur :: rest) st (S (length pre), cur))
  = Loop.total_distance st + distance_contribution prev cur.
Proof.
  unfold loop_body. cbv zeta. cbn [Loop.total_distance].
  rewrite prev_at. cbn [Nat.ltb Nat.leb].
  unfold distance_contribution, pair_distance.
  destruct (Rlt_dec _ 50); lra.
Qed.

Lemma body_driving_seconds (pre : list point) (prev cur : point)
    (rest : list point) (st : Loop.state) :
  Loop.driving_seconds
    (loop_body (pre ++ prev :: cur :: rest) st (S (length pre), cur))
  = Loop.driving_seconds st + driving_contribution prev cur.
Proof.
  unfold loop_body. cbv zeta. cbn [Loop.driving_seconds].
  rewrite prev_at. cbn [Nat.ltb Nat.leb andb].
  unfold driving_contribution, gap_seconds.
  destruct (engine_status cur); [|lra].
  destruct (Rlt_dec _ 300); lra.
Qed.

(** The first iteration ([i = 0]) has no previous row. *)
Lemma body_first (rows : list point) (row : point) (st : Loop.state) :
  Loop.total_distance (loop_body rows st (0%nat, row))
  = Loop.total_distance st
  /\ Loop.driving_seconds (loop_body rows st (0%nat, row))
     = Loop.driving_seconds st.
Proof. split; reflexivity. Qed.

Lemma fold_total_distance (rest pre : list point) (p : point)
    (st : Loop.state) :
  Loop.total_distance
    (fold_left (loop_body (pre ++ p :: rest))
       (combine (seq (S (length pre)) (length rest)) rest) st)
  = Loop.total_distance st + pair_sum distance_contribution p rest.
Proof.
  revert pre p st. induction rest as [|r rest IH]; intros pre p st.
  - simpl. lra.
  - rewrite seq_combine_cons. cbn [fold_left].
    replace (pre ++ p :: r :: rest) with ((pre ++ [p]) ++ r :: rest)
      by (rewrite <- app_assoc; reflexivity).
    replace (S (S (length pre))) with (S (length (pre ++ [p])))
      by (rewrite length_app; simpl; lia).
    rewrite IH. cbn [pair_sum].
    rewrite <- app_assoc. simpl app.
    rewrite body_total_distance. lra.
Qed.

Lemma fold_driving_seconds (rest pre : list point) (p : point)
    (st : Loop.state) :
  Loop.driving_seconds
    (fold_left (loop_body (pre ++ p :: rest))
       (combine (seq (S (length pre)) (length rest)) rest) st)
  = Loop.driving_seconds st + pair_sum driving_contribution p rest.
Proof.
  revert pre p st. induction rest as [|r rest IH]; intros pre p st.
  - simpl. lra.
  - rewrite seq_combine_cons. cbn [fold_left].
    replace (pre ++ p :: r :: rest) with ((pre ++ [p]) ++ r :: rest)
      by (rewrite <- app_assoc; reflexivity).
    replace (S (S (length pre))) with (S (length (pre ++ [p])))
      by (rewrite length_app; simpl; lia).
    rewrite IH. cbn [pair_sum].
    rewrite <- app_assoc. simpl app.
    rewrite body_driving_seconds. lra.
Qed.

(** ** The state at the end of the loop *)

(** Every index the loop visits is in range, hence so is [i - 1]. *)
Lemma prev_in_range (rows : list point) (i : nat) (row : point) :
  In (i, row) (Py.enumerate rows) -> (i - 1 < length rows)%nat.
Proof.
  intros H. apply in_combine_l in H. apply in_seq in H. lia.
Qed.

Lemma enumerate_cons (first : point) (rest : list point) :
  Py.enumerate (first :: rest)
  = (0%nat, first) :: combine (seq 1 (length rest)) rest.
Proof. reflexivity. Qed.

Lemma result_speeds (rows : list point) :
  Loop.speeds (loop_result rows) = map speed rows.
Proof.
  unfold loop_result. now rewrite fold_speeds, enumerate_rows.
Qed.

Lemma result_critical (rows : list point) :
  Loop.critical (loop_result rows) = count_if is_critical_dec rows.
Proof.
  unfold loop_result. rewrite fold_critical, enumerate_rows. simpl. lia.
Qed.

Lemma result_speeding (rows : list point) :
  Loop.speeding (loop_result rows) = count_if is_speeding_dec rows.
Proof.
  unfold loop_result. rewrite fold_speeding, enumerate_rows. simpl. lia.
Qed.

Lemma result_engine_off_moving (rows : list point) :
  Loop.engine_off_moving (loop_result rows)
  = count_if is_engine_off_moving_dec rows.
Proof.
  unfold loop_result.
  rewrite fold_engine_off_moving, enumerate_rows. simpl. lia.
Qed.

Lemma result_total_distance (rows : list point) :
  Loop.total_distance (loop_result rows)
  = sum_pairs distance_contribution rows.
Proof.
  destruct rows as [|first rest]; [reflexivity|].
  unfold loop_result. rewrite enumerate_cons. cbn [fold_left].
  rewrite (fold_total_distance rest [] first).
  rewrite (proj1 (body_first _ _ _)). simpl. lra.
Qed.

Lemma result_driving_seconds (rows : list point) :
  Loop.driving_seconds (loop_result rows)
  = sum_pairs driving_contribution rows.
Proof.
  destruct rows as [|first rest]; [reflexivity|].
  unfold loop_result. rewrite enumerate_cons. cbn [fold_left].
  rewrite (fold_driving_seconds rest [] first).
  rewrite (proj2 (body_first _ _ _)). simpl. lra.
Qed.

(** ** The summary, key by key *)

Section SummaryFields.

Variables (vid : Z) (target_date : date) (rows : list point).

Let s := compute_summary vid target_date rows.

Lemma summary_total_points : total_points s = Z.of_nat (length rows).
Proof. subst s. destruct rows; reflexivity. Qed.

Lemma summary_critical :
  critical_violations s = count_if is_critical_dec rows.
Proof.
  subst s. destruct rows as [|p l]; [reflexivity|].
  apply result_critical.
Qed.

Lemma summary_speeding :
  speeding_violations s = count_if is_speeding_dec rows.
Proof.
  subst s. destruct rows as [|p l]; [reflexivity|].
  apply result_speeding.
Qed.

Lemma summary_engine_off_moving :
  engine_off_moving s = count_if is_engine_off_moving_dec rows.
Proof.
  subst s. destruct rows as [|p l]; [reflexivity|].
  apply result_engine_off_moving.
Qed.

Lemma summary_total_distance :
  total_distance_km s
  = Py.round2 (sum_pairs distance_contribution rows).
Proof.
  subst s. destruct rows as [|p l].
  - simpl. now rewrite round2_0.
  - cbn [compute_summary total_distance_km].
    now rewrite result_total_distance.
Qed.

Lemma summary_driving_minutes :
  total_driving_minutes s
  = Py.round2 (sum_pairs driving_contribution rows / 60).
Proof.
  subst s. destruct rows as [|p l].
  - simpl. replace (0 / 60) with 0 by lra. now rewrite round2_0.
  - cbn [compute_summary total_driving_minutes].
    now rewrite result_driving_seconds.
Qed.

End SummaryFields.

Lemma summary_avg_speed (vid : Z) (target_date : date)
    (first : point) (rest : list point) :
  avg_speed (compute_summary vid target_date (first :: rest))
  = Py.round2 (Py.sum (map speed (first :: rest))
               / IZR (Z.of_nat (length (first :: rest)))).
Proof.
  cbn [compute_summary avg_speed]. rewrite result_speeds.
  rewrite length_map. reflexivity.
Qed.

Lemma summary_max_speed (vid : Z) (target_date : date)
    (first : point) (rest : list point) :
  max_speed (compute_summary vid target_date (first :: rest))
  = Py.round2 (Py.max_from (speed first) (map speed rest)).
Proof.
  cbn [compute_summary max_speed]. now rewrite result_speeds.
Qed.



(** [max] returns an element that no other element exceeds. *)
Lemma max_from_is_maximum (l : list R) (x0 : R) :
  is_maximum (Py.max_from x0 l) (x0 :: l).
Proof.
  revert x0. induction l as [|y l IH]; intros x0.
  - split; [now left|]. intros x [<-|[]]. simpl. lra.
  - unfold Py.max_from. cbn [fold_left].
    fold (Py.max_from (if Rgt_dec y x0 then y else x0) l).
    destruct (IH (if Rgt_dec y x0 then y else x0)) as [Hin Hle].
    split.
    + destruct Hin as [Heq|Hin].
      * rewrite <- Heq. destruct (Rgt_dec y x0); [right; now left|now left].
      * right; now right.
    + intros x [<-|[<-|Hx]].
      * apply Rle_trans with (if Rgt_dec y x0 then y else x0);
          [destruct (Rgt_dec y x0); lra | apply Hle; now left].
      * apply Rle_trans with (if Rgt_dec y x0 then y else x0);
          [destruct (Rgt_dec y x0); lra | apply Hle; now left].
      * apply Hle. now right.
Qed.

Lemma count_tiers_disjoint (rows : list point) :
  (count_if is_speeding_dec rows + count_if is_critical_dec rows
   <= Z.of_nat (length rows))%Z.
Proof.
  induction rows as [|p rows IH]; [rewrite !count_if_nil; simpl; lia|].
  rewrite !count_if_cons. cbn [length].
  destruct (is_speeding_dec p) as [[_ H]|_];
    destruct (is_critical_dec p) as [H'|_];
    try lia.
  unfold is_critical in H'. lra.
Qed.

(** ** Empty input *)

(** C5: for an empty point sequence [compute_summary] returns the
    summary of the given vehicle and date in which the seven numeric
    fields and [total_points] are all 0; every key is present. *)
Theorem empty_input_all_zero (vid : Z) (target_date : date) :
  compute_summary vid target_date []
  = {| vehicle_id := vid; summary_date := target_date;
       total_distance_km := 0; avg_speed := 0; max_speed := 0;
       total_points := 0; speeding_violations := 0;
       critical_violations := 0; engine_off_moving := 0;
       total_driving_minutes := 0 |}.
Proof. reflexivity. Qed.

(** ** Counters *)

(** C9: in the summary of any point sequence, [total_points] is the
    length of the sequence, the two violation counters together do not
    exceed it, [engine_off_moving] does not exceed it, and the four
    counters are non-negative. *)
Theorem counters_bounded (vid : Z) (target_date : date)
    (rows : list point) :
  let s := compute_summary vid target_date rows in
  total_points s = Z.of_nat (length rows)
  /\ (speeding_violations s + critical_violations s <= total_points s)%Z
  /\ (engine_off_moving s <= total_points s)%Z
  /\ (0 <= total_points s)%Z
  /\ (0 <= speeding_violations s)%Z
  /\ (0 <= critical_violations s)%Z
  /\ (0 <= engine_off_moving s)%Z.
Proof.
  intros s. subst s.
  rewrite summary_total_points, summary_speeding, summary_critical,
    summary_engine_off_moving.
  pose proof (count_tiers_disjoint rows).
  pose proof (count_if_bounds is_speeding_dec rows).
  pose proof (count_if_bounds is_critical_dec rows).
  pose proof (count_if_bounds is_engine_off_moving_dec rows).
  repeat split; lia.
Qed.

(** C4: the two violation tiers exclude each other and critical comes
    first.  Each iteration adds 1 to [critical] exactly for a point with
    speed > 120 and 1 to [speeding] exactly for a point with
    80 < speed <= 120; so the summary counts the points of each tier, and
    no point belongs to both. *)
Theorem violation_tiers_exclusive (vid : Z) (target_date : date)
    (rows : list point) :
  (forall (st : Loop.state) (i : nat) (row : point),
      Loop.critical (loop_body rows st (i, row))
      = (Loop.critical st + if is_critical_dec row then 1 else 0)%Z
      /\ Loop.speeding (loop_body rows st (i, row))
         = (Loop.speeding st + if is_speeding_dec row then 1 else 0)%Z)
  /\ critical_violations (compute_summary vid target_date rows)
     = count_if is_critical_dec rows
  /\ speeding_violations (compute_summary vid target_date rows)
     = count_if is_speeding_dec rows
  /\ (forall p : point, ~ (is_critical p /\ is_speeding p)).
Proof.
  split; [|split; [|split]].
  - intros st i row.
    pose proof (fold_critical rows [(i, row)] st) as Hc.
    pose proof (fold_speeding rows [(i, row)] st) as Hs.
    cbn [fold_left map snd] in Hc, Hs.
    rewrite count_if_cons, count_if_nil in Hc.
    rewrite count_if_cons, count_if_nil in Hs.
    rewrite Hc, Hs. split; lia.
  - apply summary_critical.
  - apply summary_speeding.
  - intros p [Hc [_ Hs]]. unfold is_critical in Hc. lra.
Qed.

(** ** Driving time *)


(** ** Distance and noise rejection *)





(** ** Speed statistics *)


(** ** A single point *)

(** C10: for a sequence of exactly one point there is no consecutive
    pair: [total_distance_km] and [total_driving_minutes] are 0 whatever
    the point holds, [avg_speed] and [max_speed] are its speed rounded to
    two decimals, and [total_points] is 1. *)
Theorem single_point_summary (vid : Z) (target_date : date) (p : point) :
  let s := compute_summary vid target_date [p] in
  total_distance_km s = 0
  /\ total_driving_minutes s = 0
  /\ avg_speed s = Py.round2 (speed p)
  /\ max_speed s = Py.round2 (speed p)
  /\ total_points s = 1%Z.
Proof.
  intros s. subst s.
  rewrite summary_total_distance, summary_driving_minutes,
    summary_avg_speed, summary_max_speed, summary_total_points.
  cbn [sum_pairs pair_sum map length Py.max_from fold_left].
  replace (0 / 60) with 0 by lra. rewrite round2_0.
  repeat split; try reflexivity.
  unfold Py.sum. cbn [fold_left Z.of_nat Pos.of_succ_nat].
  f_equal. lra.
Qed.

(** ** The end-to-end scenario *)

(** Settles the tier and engine tests of a goal about concrete points. *)
Ltac settle_tests :=
  repeat match goal with
         | |- context [is_critical_dec ?p] =>
             destruct (is_critical_dec p) as [?H|?H]
         | |- context [is_speeding_dec ?p] =>
             destruct (is_speeding_dec p) as [?H|?H]
         | |- context [is_engine_off_moving_dec ?p] =>
             destruct (is_engine_off_moving_dec p) as [?H|?H]
         end;
  unfold is_critical, is_speeding, is_engine_off_moving in *;
  cbn [speed engine_status] in *;
  try reflexivity;
  exfalso;
  solve [ intuition lra | intuition discriminate ].

Lemma scenario_counters (vid : Z) (target_date : date) (t0 : Z) :
  let s := compute_summary vid target_date (scenario t0) in
  total_points s = 3%Z
  /\ speeding_violations s = 1%Z
  /\ critical_violations s = 1%Z
  /\ engine_off_moving s = 0%Z.
Proof.
  intros s. subst s.
  rewrite summary_total_points, summary_speeding, summary_critical,
    summary_engine_off_moving.
  unfold scenario. rewrite !count_if_cons, !count_if_nil.
  repeat split; try reflexivity; settle_tests.
Qed.

Lemma scenario_max_speed (vid : Z) (target_date : date) (t0 : Z) :
  max_speed (compute_summary vid target_date (scenario t0)) = 130.
Proof.
  unfold scenario. rewrite summary_max_speed.
  unfold Py.max_from. cbn [map speed fold_left].
  destruct (Rgt_dec 90 0); [|lra].
  destruct (Rgt_dec 130 90); [|lra].
  apply (round2_hundredths 13000). lra.
Qed.

Lemma scenario_driving_minutes (vid : Z) (target_date : date) (t0 : Z) :
  total_driving_minutes (compute_summary vid target_date (scenario t0)) = 2.
Proof.
  rewrite summary_driving_minutes.
  unfold scenario. cbn [sum_pairs pair_sum].
  unfold driving_contribution, gap_seconds, Py.total_seconds.
  cbn [ts engine_status].
  replace (t0 + 60000000 - t0)%Z with 60000000%Z by lia.
  replace (t0 + 120000000 - (t0 + 60000000))%Z with 60000000%Z by lia.
  destruct (Rlt_dec (60000000 / 1000000) 300); [|lra].
  replace ((60000000 / 1000000 + (60000000 / 1000000 + 0)) / 60)
    with 2 by lra.
  apply (round2_hundredths 200). lra.
Qed.

(** C1, as the code computes it: on the three-point scenario the summary
    has [total_points = 3], [speeding_violations = 1],
    [critical_violations = 1], [engine_off_moving = 0],
    [max_speed = 130] and [total_driving_minutes = 2]: both pairs end in
    a point with its engine on and both gaps are 60 seconds, so both
    count. *)
Theorem scenario_summary (target_date : date) (t0 : Z) :
  let s := compute_summary 7 target_date (scenario t0) in
  total_points s = 3%Z
  /\ speeding_violations s = 1%Z
  /\ critical_violations s = 1%Z
  /\ engine_off_moving s = 0%Z
  /\ max_speed s = 130
  /\ total_driving_minutes s = 2.
Proof.
  intros s. subst s.
  destruct (scenario_counters 7 target_date t0) as (Hp & Hs & Hc & He).
  repeat split; trivial.
  - apply scenario_max_speed.
  - apply scenario_driving_minutes.
Qed.

(** C1, as stated, fails: the summary of the scenario does not have
    [total_driving_minutes = 1]. *)
Lemma scenario_driving_minutes_is_not_1 :
  ~ (let s := compute_summary 7 sample_date (scenario 0) in
     total_points s = 3%Z
     /\ speeding_violations s = 1%Z
     /\ critical_violations s = 1%Z
     /\ engine_off_moving s = 0%Z
     /\ max_speed s = 130
     /\ total_driving_minutes s = 1).
Proof.
  intros (_ & _ & _ & _ & _ & H).
  rewrite scenario_driving_minutes in H. lra.
Qed.

(** The two gap examples of the specification: with the engine on, a gap
    of 600 seconds adds nothing and a gap of 120 seconds adds 120. *)
Example gap_600_not_counted (p q : point) :
  engine_status q = true -> ts q = (ts p + 600000000)%Z ->
  driving_contribution p q = 0.
Proof.
  intros He Ht. unfold driving_contribution, gap_seconds, Py.total_seconds.
  rewrite He, Ht.
  replace (ts p + 600000000 - ts p)%Z with 600000000%Z by lia.
  destruct (Rlt_dec _ 300); lra.
Qed.

Example gap_120_counted (p q : point) :
  engine_status q = true -> ts q = (ts p + 120000000)%Z ->
  driving_contribution p q = 120.
Proof.
  intros He Ht. unfold driving_contribution, gap_seconds, Py.total_seconds.
  rewrite He, Ht.
  replace (ts p + 120000000 - ts p)%Z with 120000000%Z by lia.
  destruct (Rlt_dec _ 300); lra.
Qed.

(** ** Determinism *)


(** ** Instances *)





(** ** More on rounding *)

Lemma floor_spec (x : R) : IZR (Py.floor x) <= x < IZR (Py.floor x) + 1.
Proof.
  unfold Py.floor. rewrite minus_IZR.
  destruct (archimed x) as [H1 H2]. lra.
Qed.

(** Rounding to the nearest integer moves a number by at most 1/2. *)
Lemma round_half_even_close (x : R) :
  - (1 / 2) <= IZR (Py.round_half_even x) - x <= 1 / 2.
Proof.
  unfold Py.round_half_even. pose proof (floor_spec x) as Hf.
  destruct (Rlt_dec (x - IZR (Py.floor x)) (1 / 2)); [lra|].
  destruct (Rlt_dec (1 / 2) (x - IZR (Py.floor x))).
  - rewrite plus_IZR. lra.
  - destruct (Z.even (Py.floor x)); [lra|]. rewrite plus_IZR. lra.
Qed.

Lemma round_half_even_mono (x y : R) :
  x <= y -> (Py.round_half_even x <= Py.round_half_even y)%Z.
Proof.
  intros Hxy.
  destruct (Z_le_gt_dec (Py.round_half_even x) (Py.round_half_even y))
    as [H|H]; [assumption|exfalso].
  pose proof (round_half_even_close x) as Hx.
  pose proof (round_half_even_close y) as Hy.
  assert (H1 : (Py.round_half_even y + 1 <= Py.round_half_even x)%Z)
    by lia.
  apply IZR_le in H1. rewrite plus_IZR in H1.
  assert (Heq : x = y) by lra.
  subst y. lia.
Qed.

Lemma round2_mono (x y : R) : x <= y -> Py.round2 x <= Py.round2 y.
Proof.
  intros H. unfold Py.round2.
  assert (Hm : (Py.round_half_even (x * 100)
                <= Py.round_half_even (y * 100))%Z)
    by (apply round_half_even_mono; lra).
  apply IZR_le in Hm. lra.
Qed.

(** [round(x, 2)] moves a number by at most half a hundredth. *)
Lemma round2_close (x : R) : - (1 / 200) <= Py.round2 x - x <= 1 / 200.
Proof.
  unfold Py.round2. pose proof (round_half_even_close (x * 100)). lra.
Qed.

Lemma round2_two_decimals (x : R) : two_decimals (Py.round2 x).
Proof.
  exists (Py.round_half_even (x * 100)). unfold Py.round2. lra.
Qed.

Lemma two_decimals_0 : two_decimals 0.
Proof. exists 0%Z. lra. Qed.

(** A bound with at most two decimals survives the rounding. *)
Lemma round2_le_bound (n : Z) (x c : R) :
  c * 100 = IZR n -> x <= c -> Py.round2 x <= c.
Proof.
  intros Hc Hx. rewrite <- (round2_hundredths n c Hc).
  now apply round2_mono.
Qed.

Lemma round2_ge_bound (n : Z) (x c : R) :
  c * 100 = IZR n -> c <= x -> c <= Py.round2 x.
Proof.
  intros Hc Hx. rewrite <- (round2_hundredths n c Hc).
  now apply round2_mono.
Qed.

(** ** Further properties of the summary *)

Lemma count_if_app {A : Type} {P : A -> Prop}
    (dec : forall a, {P a} + {~ P a}) (l l' : list A) :
  count_if dec (l ++ l') = (count_if dec l + count_if dec l')%Z.
Proof.
  induction l as [|a l IH]; [rewrite count_if_nil; reflexivity|].
  cbn [app]. rewrite !count_if_cons, IH. lia.
Qed.

Lemma count_if_witness {A : Type} {P : A -> Prop}
    (dec : forall a, {P a} + {~ P a}) (l : list A) (a : A) :
  In a l -> P a -> (1 <= count_if dec l)%Z.
Proof.
  intros Hin Ha. induction l as [|b l IH]; [contradiction|].
  rewrite count_if_cons. pose proof (count_if_bounds dec l) as Hb.
  destruct Hin as [->|Hin].
  - destruct (dec a); [lia|contradiction].
  - specialize (IH Hin). destruct (dec b); lia.
Qed.

Lemma count_if_none {A : Type} {P : A -> Prop}
    (dec : forall a, {P a} + {~ P a}) (l : list A) :
  (forall a, In a l -> ~ P a) -> count_if dec l = 0%Z.
Proof.
  intros H. induction l as [|b l IH]; [reflexivity|].
  rewrite count_if_cons, IH by (intros a Ha; apply H; now right).
  destruct (dec b) as [Hb|_]; [|reflexivity].
  exfalso. apply (H b); [now left | assumption].
Qed.

(** The points over 80 km/h are the speeding ones and the critical
    ones. *)
Lemma count_violations (rows : list point) :
  (count_if is_speeding_dec rows + count_if is_critical_dec rows)%Z
  = count_if is_violation_dec rows.
Proof.
  induction rows as [|p rows IH]; [reflexivity|].
  rewrite !count_if_cons, <- IH.
  unfold is_violation_dec, is_critical_dec.
  destruct (is_speeding_dec p) as [[H1 H2]|H];
    destruct (Rgt_dec (speed p) 120);
    destruct (Rgt_dec (speed p) 80);
    try lia; try lra.
  exfalso. apply H. unfold is_speeding. lra.
Qed.

(** X1: each iteration adds 1 to the engine-off-moving counter exactly
    for a point whose engine is off and whose speed is above 0, so the
    key [engine_off_moving] of the summary is the number of such
    points. *)
Theorem engine_off_moving_detection (vid : Z) (target_date : date)
    (rows : list point) :
  (forall (st : Loop.state) (i : nat) (row : point),
      Loop.engine_off_moving (loop_body rows st (i, row))
      = (Loop.engine_off_moving st
         + if is_engine_off_moving_dec row then 1 else 0)%Z)
  /\ engine_off_moving (compute_summary vid target_date rows)
     = count_if is_engine_off_moving_dec rows.
Proof.
  split.
  - intros st i row.
    pose proof (fold_engine_off_moving rows [(i, row)] st) as H.
    cbn [fold_left map snd] in H.
    rewrite count_if_cons, count_if_nil in H. rewrite H. lia.
  - apply summary_engine_off_moving.
Qed.

Lemma summary_avg_speed_two_decimals (vid : Z) (target_date : date)
    (rows : list point) :
  two_decimals (avg_speed (compute_summary vid target_date rows)).
Proof.
  destruct rows as [|p l]; [apply two_decimals_0|].
  rewrite summary_avg_speed. apply round2_two_decimals.
Qed.

Lemma summary_max_speed_two_decimals (vid : Z) (target_date : date)
    (rows : list point) :
  two_decimals (max_speed (compute_summary vid target_date rows)).
Proof.
  destruct rows as [|p l]; [apply two_decimals_0|].
  rewrite summary_max_speed. apply round2_two_decimals.
Qed.

(** X2: the four real-valued keys of a summary have at most two
    decimals, and [total_distance_km] and [total_driving_minutes] differ
    from the unrounded totals by at most 0.005. *)
Theorem summary_rounding (vid : Z) (target_date : date)
    (rows : list point) :
  let s := compute_summary vid target_date rows in
  two_decimals (total_distance_km s)
  /\ two_decimals (avg_speed s)
  /\ two_decimals (max_speed s)
  /\ two_decimals (total_driving_minutes s)
  /\ Rabs (total_distance_km s - sum_pairs distance_contribution rows)
     <= 1 / 200
  /\ Rabs (total_driving_minutes s
           - sum_pairs driving_contribution rows / 60) <= 1 / 200.
Proof.
  intros s. subst s.
  rewrite summary_total_distance, summary_driving_minutes.
  repeat split.
  - apply round2_two_decimals.
  - apply summary_avg_speed_two_decimals.
  - apply summary_max_speed_two_decimals.
  - apply round2_two_decimals.
  - apply Rabs_le. pose proof (round2_close
      (sum_pairs distance_contribution rows)). lra.
  - apply Rabs_le. pose proof (round2_close
      (sum_pairs driving_contribution rows / 60)). lra.
Qed.







Lemma max_speed_attained (p : point) (l : list point) :
  exists q : point,
    In q (p :: l) /\ speed q = Py.max_from (speed p) (map speed l).
Proof.
  destruct (max_from_is_maximum (map speed l) (speed p)) as [Hin _].
  change (speed p :: map speed l) with (map speed (p :: l)) in Hin.
  apply in_map_iff in Hin. destruct Hin as (q & Hq & Hin).
  exists q. split; [assumption | assumption].
Qed.

(** X5: [max_speed] and the violation counters agree, up to the rounding
    of [max_speed]: without a critical violation [max_speed] is at most
    120 and with one it is at least 120; without any violation
    [max_speed] is at most 80 and with one it is at least 80. *)
Theorem max_speed_matches_violations (vid : Z) (target_date : date)
    (rows : list point) :
  let s := compute_summary vid target_date rows in
  ((1 <= critical_violations s)%Z \/ max_speed s <= 120)
  /\ (critical_violations s = 0%Z \/ 120 <= max_speed s)
  /\ ((1 <= speeding_violations s + critical_violations s)%Z
      \/ max_speed s <= 80)
  /\ ((speeding_violations s + critical_violations s = 0)%Z
      \/ 80 <= max_speed s).
Proof.
  intros s. subst s.
  rewrite summary_critical, summary_speeding, count_violations.
  destruct rows as [|p l].
  - simpl. repeat split; first [right; lra | left; reflexivity].
  - rewrite summary_max_speed.
    destruct (max_speed_attained p l) as (q & Hq & Hs).
    destruct (max_from_is_maximum (map speed l) (speed p)) as [_ Hmax].
    change (speed p :: map speed l) with (map speed (p :: l)) in Hmax.
    set (m := Py.max_from (speed p) (map speed l)) in *.
    assert (Hall : forall r, In r (p :: l) -> speed r <= m)
      by (intros r Hr; apply Hmax; now apply in_map).
    repeat split.
    + destruct (Rgt_dec m 120) as [H|H].
      * left. apply (count_if_witness is_critical_dec _ q Hq).
        unfold is_critical. lra.
      * right. apply (round2_le_bound 12000); lra.
    + destruct (Rgt_dec m 120) as [H|H].
      * right. apply (round2_ge_bound 12000); lra.
      * left. apply count_if_none. intros r Hr Hc.
        unfold is_critical in Hc. specialize (Hall r Hr). lra.
    + destruct (Rgt_dec m 80) as [H|H].
      * left. apply (count_if_witness is_violation_dec _ q Hq).
        unfold is_violation. lra.
      * right. apply (round2_le_bound 8000); lra.
    + destruct (Rgt_dec m 80) as [H|H].
      * right. apply (round2_ge_bound 8000); lra.
      * left. apply count_if_none. intros r Hr Hc.
        unfold is_violation in Hc. specialize (Hall r Hr). lra.
Qed.

(** ** Driving time and the order of the rows *)

Lemma last_cons_default (q p : point) (l : list point) :
  last (q :: l) p = last l q.
Proof.
  revert q p. induction l as [|r l IH]; intros q p; [reflexivity|].
  change (last (q :: r :: l) p) with (last (r :: l) p).
  rewrite (IH r p). symmetry. apply IH.
Qed.

Lemma driving_contribution_ordered (p q : point) :
  ts_le p q -> 0 <= driving_contribution p q <= gap_seconds p q.
Proof.
  unfold ts_le. intros H.
  assert (Hg : 0 <= gap_seconds p q).
  { unfold gap_seconds, Py.total_seconds.
    assert (0 <= IZR (ts q - ts p)) by (apply IZR_le; lia). lra. }
  unfold driving_contribution.
  destruct (engine_status q); [|lra].
  destruct (Rlt_dec (gap_seconds p q) 300); lra.
Qed.

Lemma pair_sum_driving_ordered (rest : list point) (p : point) :
  Sorted ts_le (p :: rest) ->
  0 <= pair_sum driving_contribution p rest
    <= Py.total_seconds (ts (last rest p) - ts p).
Proof.
  revert p. induction rest as [|q rest IH]; intros p Hs.
  - simpl. unfold Py.total_seconds. rewrite Z.sub_diag. lra.
  - apply Sorted_inv in Hs. destruct Hs as [Hs Hhd].
    apply HdRel_inv in Hhd.
    cbn [pair_sum]. rewrite last_cons_default.
    pose proof (driving_contribution_ordered p q Hhd) as Hc.
    pose proof (IH q Hs) as Hr.
    unfold gap_seconds, Py.total_seconds in *.
    replace (ts (last rest q) - ts p)%Z
      with ((ts q - ts p) + (ts (last rest q) - ts q))%Z by lia.
    rewrite plus_IZR. lra.
Qed.


(** X7: the rows of one day, in time order, give at most 1440 driving
    minutes. *)
Theorem driving_minutes_within_a_day (vid : Z) (target_date : date)
    (first : point) (rest : list point) :
  Sorted ts_le (first :: rest) ->
  (ts (last rest first) - ts first <= 86400000000)%Z ->
  total_driving_minutes (compute_summary vid target_date (first :: rest))
  <= 1440.
Proof.
  intros Hs Hday. rewrite summary_driving_minutes. cbn [sum_pairs].
  pose proof (pair_sum_driving_ordered rest first Hs) as [_ H1].
  apply IZR_le in Hday. unfold Py.total_seconds in H1.
  apply (round2_le_bound 144000); lra.
Qed.

(** X8: the loop does not check the order of the rows.  When a row with
    its engine on carries an earlier time than the row before it, the
    negative gap passes the test [delta < 300] and is added: a sequence of
    two such rows has a negative driving time. *)
Theorem out_of_order_driving_time (vid : Z) (target_date : date)
    (p q : point) :
  engine_status q = true ->
  (ts q < ts p)%Z ->
  driving_contribution p q = gap_seconds p q
  /\ Loop.driving_seconds (loop_result [p; q]) < 0
  /\ total_driving_minutes (compute_summary vid target_date [p; q]) <= 0.
Proof.
  intros He Ht.
  assert (Hg : gap_seconds p q < 0).
  { unfold gap_seconds, Py.total_seconds.
    assert (IZR (ts q - ts p) < 0) by (apply IZR_lt; lia). lra. }
  assert (Hc : driving_contribution p q = gap_seconds p q).
  { unfold driving_contribution. rewrite He.
    destruct (Rlt_dec (gap_seconds p q) 300); lra. }
  rewrite result_driving_seconds, summary_driving_minutes.
  cbn [sum_pairs pair_sum]. rewrite Hc.
  split; [reflexivity|]. split; [lra|].
  apply (round2_le_bound 0); lra.
Qed.

(** ** Splitting and reordering the rows *)

Lemma pair_sum_app (f : point -> point -> R) (l : list point)
    (a p q : point) (l2 : list point) :
  pair_sum f a ((l ++ [p]) ++ q :: l2)
  = pair_sum f a (l ++ [p]) + f p q + pair_sum f q l2.
Proof.
  revert a. induction l as [|b l IH]; intros a.
  - simpl. lra.
  - cbn [app pair_sum]. rewrite IH. lra.
Qed.

Lemma sum_pairs_app (f : point -> point -> R) (l1 : list point)
    (p q : point) (l2 : list point) :
  sum_pairs f ((l1 ++ [p]) ++ q :: l2)
  = sum_pairs f (l1 ++ [p]) + f p q + sum_pairs f (q :: l2).
Proof.
  destruct l1 as [|a l1].
  - simpl. lra.
  - cbn [app sum_pairs]. apply pair_sum_app.
Qed.

(** X9: cutting a sequence in two.  The counters of the whole are the
    sums of the counters of the parts; the distance and the driving time
    accumulated over the whole are those of the parts plus the
    contribution of the pair across the cut. *)
Theorem summary_of_concatenation (vid : Z) (target_date : date)
    (l1 : list point) (p q : point) (l2 : list point) :
  let before := l1 ++ [p] in
  let after := q :: l2 in
  let s := compute_summary vid target_date (before ++ after) in
  let sl := compute_summary vid target_date before in
  let sr := compute_summary vid target_date after in
  total_points s = (total_points sl + total_points sr)%Z
  /\ speeding_violations s
     = (speeding_violations sl + speeding_violations sr)%Z
  /\ critical_violations s
     = (critical_violations sl + critical_violations sr)%Z
  /\ engine_off_moving s = (engine_off_moving sl + engine_off_moving sr)%Z
  /\ Loop.total_distance (loop_result (before ++ after))
     = Loop.total_distance (loop_result before)
       + distance_contribution p q
       + Loop.total_distance (loop_result after)
  /\ Loop.driving_seconds (loop_result (before ++ after))
     = Loop.driving_seconds (loop_result before)
       + driving_contribution p q
       + Loop.driving_seconds (loop_result after).
Proof.
  intros before after s sl sr. subst s sl sr.
  rewrite !summary_total_points, !summary_speeding, !summary_critical,
    !summary_engine_off_moving, !result_total_distance,
    !result_driving_seconds.
  rewrite !count_if_app, length_app. subst before after.
  rewrite !sum_pairs_app.
  repeat split; lia.
Qed.





(** ** More on the haversine distance *)

Lemma PI_bounds_4 : 31415 / 10000 < PI < 31417 / 10000.
Proof.
  pose proof (PI_2_3_7_ineq 1) as [Hlo _].
  pose proof (PI_2_3_7_ineq 2) as [_ Hhi].
  unfold sum_f_R0, tg_alt, PI_2_3_7_tg, Ratan_seq in Hlo, Hhi.
  simpl in Hlo, Hhi.
  split; lra.
Qed.

Lemma atan2_1_0 : Py.atan2 1 0 = PI / 2.
Proof.
  unfold Py.atan2.
  destruct (Rlt_dec 0 0); [lra|].
  destruct (Rlt_dec 0 1); [reflexivity|lra].
Qed.

Lemma atan2_sin_cos_quadrant (u : R) :
  0 <= u <= PI / 2 -> Py.atan2 (sin u) (cos u) = u.
Proof.
  intros [H0 [H1|H1]].
  - apply atan2_sin_cos. pose proof PI_bounds. lra.
  - rewrite H1, sin_PI2, cos_PI2. apply atan2_1_0.
Qed.

(** The term [a] on a meridian. *)
Lemma haversine_a_meridian (lat1 lat2 lon : R) :
  haversine_a lat1 lon lat2 lon
  = sin (Py.radians (Rabs (lat2 - lat1)) / 2) ^ 2.
Proof.
  unfold haversine_a. cbv zeta.
  replace (lon - lon) with 0 by lra. rewrite radians_0.
  replace (0 / 2) with 0 by lra. rewrite sin_0.
  unfold Rabs. destruct (Rcase_abs (lat2 - lat1)).
  - replace (Py.radians (- (lat2 - lat1)) / 2)
      with (- (Py.radians (lat2 - lat1) / 2))
      by (unfold Py.radians; lra).
    rewrite sin_neg. ring.
  - ring.
Qed.

Lemma haversine_km_meridian (lat1 lat2 lon : R) :
  Rabs (lat2 - lat1) <= 180 ->
  haversine_km lat1 lon lat2 lon = 6371 * Py.radians (Rabs (lat2 - lat1)).
Proof.
  intros Hd. pose proof PI_bounds as HPI.
  pose proof (Rabs_pos (lat2 - lat1)) as Hpos.
  unfold haversine_km. cbv zeta. rewrite haversine_a_meridian.
  set (u := Py.radians (Rabs (lat2 - lat1)) / 2).
  assert (Hu : 0 <= u <= PI / 2).
  { subst u. unfold Py.radians. split.
    - assert (0 <= Rabs (lat2 - lat1) * (PI / 180))
        by (apply Rmult_le_pos; lra). lra.
    - assert (Rabs (lat2 - lat1) * (PI / 180) <= 180 * (PI / 180))
        by (apply Rmult_le_compat_r; lra). lra. }
  assert (Hs : 0 <= sin u) by (apply sin_ge_0; lra).
  assert (Hc : 0 <= cos u) by (apply cos_ge_0; lra).
  replace (1 - sin u ^ 2) with (cos u ^ 2).
  2:{ pose proof (sin2_cos2 u) as H. unfold Rsqr in H. lra. }
  rewrite !sqrt_pow2 by assumption.
  rewrite atan2_sin_cos_quadrant by assumption.
  subst u. lra.
Qed.

(** X11: along a meridian the haversine distance is the arc length:
    for two points of the same longitude whose latitudes differ by at
    most 180 degrees it is 6371 km times the difference in radians. *)
Theorem haversine_along_meridian (lat1 lat2 lon : R) :
  Rabs (lat2 - lat1) <= 180 ->
  haversine_km lat1 lon lat2 lon
  = 6371 * (Rabs (lat2 - lat1) * PI / 180).
Proof.
  intros H. rewrite haversine_km_meridian by assumption.
  unfold Py.radians. lra.
Qed.

(** X12: what the 50 km filter means on a meridian: a step between two
    rows of the same longitude is counted exactly when the latitudes
    differ by less than 9000 / (6371 pi) degrees, a number between 0.449
    and 0.450. *)
Theorem jump_filter_on_meridian (p q : point) :
  longitude p = longitude q ->
  Rabs (latitude q - latitude p) <= 180 ->
  distance_contribution p q
  = (if Rlt_dec (Rabs (latitude q - latitude p)) (9000 / (6371 * PI))
     then pair_distance p q else 0)
  /\ 449 / 1000 < 9000 / (6371 * PI) < 450 / 1000.
Proof.
  intros Hlon Hd. pose proof PI_bounds_4 as HPI.
  assert (Hpi : 0 < 6371 * PI) by lra.
  split.
  - unfold distance_contribution, pair_distance. rewrite Hlon.
    rewrite haversine_km_meridian by assumption. unfold Py.radians.
    set (d := Rabs (latitude q - latitude p)).
    assert (Heq : d * (6371 * PI) = 180 * (6371 * (d * (PI / 180))))
      by lra.
    destruct (Rlt_dec (6371 * (d * (PI / 180))) 50) as [H|H];
      destruct (Rlt_dec d (9000 / (6371 * PI))) as [H'|H'];
      try reflexivity; exfalso.
    + apply H'. apply Rmult_lt_reg_r with (6371 * PI); [assumption|].
      replace (9000 / (6371 * PI) * (6371 * PI)) with 9000
        by (field; lra).
      lra.
    + apply H. apply (Rmult_lt_compat_r (6371 * PI)) in H';
        [|assumption].
      replace (9000 / (6371 * PI) * (6371 * PI)) with 9000 in H'
        by (field; lra).
      lra.
  - split.
    + apply Rmult_lt_reg_r with (6371 * PI); [assumption|].
      replace (9000 / (6371 * PI) * (6371 * PI)) with 9000
        by (field; lra).
      lra.
    + apply Rmult_lt_reg_r with (6371 * PI); [assumption|].
      replace (9000 / (6371 * PI) * (6371 * PI)) with 9000
        by (field; lra).
      lra.
Qed.

Lemma haversine_a_lon_period (lat1 lon1 lat2 lon2 : R) :
  haversine_a lat1 lon1 lat2 (lon2 + 360)
  = haversine_a lat1 lon1 lat2 lon2.
Proof.
  unfold haversine_a. cbv zeta.
  replace (Py.radians (lon2 + 360 - lon1) / 2)
    with (Py.radians (lon2 - lon1) / 2 + PI)
    by (unfold Py.radians; field).
  rewrite neg_sin. ring.
Qed.

(** X13: the distance does not change when a longitude is given one
    turn further (360 degrees); in particular the longitudes 180 and
    -180 of one latitude are at distance 0, so crossing the
    antimeridian is not taken for a jump. *)
Theorem haversine_longitude_wraps (lat1 lon1 lat2 lon2 : R) :
  haversine_km lat1 lon1 lat2 (lon2 + 360)
  = haversine_km lat1 lon1 lat2 lon2
  /\ haversine_km lat1 180 lat1 (-180) = 0.
Proof.
  split.
  - unfold haversine_km. cbv zeta.
    now rewrite haversine_a_lon_period.
  - unfold haversine_km. cbv zeta.
    rewrite <- (haversine_a_lon_period lat1 180 lat1 (-180)).
    replace (-180 + 360) with 180 by lra.
    rewrite haversine_a_self. replace (1 - 0) with 1 by lra.
    rewrite sqrt_0, sqrt_1, atan2_0_1. lra.
Qed.

(** ** The upsert *)

Lemma date_eqb_eq (d d' : date) : date_eqb d d' = true <-> d = d'.
Proof.
  unfold date_eqb. destruct d as [y m a], d' as [y' m' a']. simpl.
  rewrite !andb_true_iff, !Z.eqb_eq. split.
  - intros [[-> ->] ->]. reflexivity.
  - intros H. injection H as -> -> ->. auto.
Qed.

Lemma has_key_spec (vid : Z) (d : date) (r : summary) :
  has_key vid d r = true <-> key r = (vid, d).
Proof.
  unfold has_key, key. rewrite andb_true_iff, Z.eqb_eq, date_eqb_eq.
  split.
  - intros [-> ->]. reflexivity.
  - intros H. injection H as -> ->. auto.
Qed.


(** Rows of one key answer the key test alike. *)
Lemma has_key_same_key (vid : Z) (d : date) (r s : summary) :
  key r = key s -> has_key vid d r = has_key vid d s.
Proof.
  unfold has_key, key. intros H. injection H as -> ->. reflexivity.
Qed.

(** The row the [DO UPDATE] branch writes is the new summary. *)
Lemma upsert_cons (r : summary) (rest : table) (s : summary) :
  upsert_summary (r :: rest) s
  = if has_key (vehicle_id s) (summary_date s) r then s :: rest
    else r :: upsert_summary rest s.
Proof.
  cbn [upsert_summary].
  destruct (has_key (vehicle_id s) (summary_date s) r) eqn:E;
    [|reflexivity].
  apply has_key_spec in E. unfold key in E. injection E as Hv Hd.
  rewrite Hv, Hd. destruct s. reflexivity.
Qed.

Lemma stored_upsert (conn : table) (s : summary) (vid : Z) (d : date) :
  stored (upsert_summary conn s) vid d
  = if has_key vid d s then Some s else stored conn vid d.
Proof.
  unfold stored. induction conn as [|r rest IH].
  - reflexivity.
  - rewrite upsert_cons.
    destruct (has_key (vehicle_id s) (summary_date s) r) eqn:E.
    + cbn [find]. apply has_key_spec in E.
      rewrite (has_key_same_key vid d r s E).
      destruct (has_key vid d s); reflexivity.
    + cbn [find]. rewrite IH.
      destruct (has_key vid d r) eqn:Er; [|reflexivity].
      destruct (has_key vid d s) eqn:Es; [|reflexivity].
      exfalso. apply has_key_spec in Er, Es.
      assert (Hk : has_key (vehicle_id s) (summary_date s) r = true).
      { apply has_key_spec. rewrite Er. unfold key in Es.
        injection Es as -> ->. reflexivity. }
      congruence.
Qed.

(** X14: reading after an upsert.  The key of the summary now holds
    exactly that summary, and every other key holds what it held
    before. *)
Theorem upsert_then_stored (conn : table) (s : summary) (vid : Z)
    (d : date) :
  stored (upsert_summary conn s) vid d
  = if has_key vid d s then Some s else stored conn vid d.
Proof. apply stored_upsert. Qed.

Lemma upsert_keys_eq (conn : table) (s : summary) :
  map key (upsert_summary conn s)
  = if existsb (has_key (vehicle_id s) (summary_date s)) conn
    then map key conn
    else map key conn ++ [key s].
Proof.
  induction conn as [|r rest IH]; [reflexivity|].
  rewrite upsert_cons. cbn [existsb].
  destruct (has_key (vehicle_id s) (summary_date s) r) eqn:E.
  - cbn [orb map]. apply has_key_spec in E.
    f_equal. rewrite E. reflexivity.
  - cbn [orb map]. rewrite IH.
    destruct (existsb _ rest); reflexivity.
Qed.

Lemma upsert_length (conn : table) (s : summary) :
  length (upsert_summary conn s)
  = if existsb (has_key (vehicle_id s) (summary_date s)) conn
    then length conn
    else S (length conn).
Proof.
  rewrite <- (length_map key (upsert_summary conn s)), upsert_keys_eq.
  destruct (existsb _ conn).
  - apply length_map.
  - rewrite length_app, length_map. simpl. lia.
Qed.

(** X15: the upsert never adds a second row for a key and never drops a
    row: when a row with the key of the summary exists, the keys of the
    table (and their order) stay as they are; otherwise the key of the
    summary is added once. *)
Theorem upsert_keys (conn : table) (s : summary) :
  map key (upsert_summary conn s)
  = (if existsb (has_key (vehicle_id s) (summary_date s)) conn
     then map key conn
     else map key conn ++ [key s])
  /\ length (upsert_summary conn s)
     = (if existsb (has_key (vehicle_id s) (summary_date s)) conn
        then length conn
        else S (length conn)).
Proof.
  split; [apply upsert_keys_eq | apply upsert_length].
Qed.

Lemma existsb_has_key_false (conn : table) (s : summary) :
  existsb (has_key (vehicle_id s) (summary_date s)) conn = false ->
  ~ In (key s) (map key conn).
Proof.
  intros H Hin. apply in_map_iff in Hin. destruct Hin as (r & Hr & Hin).
  assert (Ht : existsb (has_key (vehicle_id s) (summary_date s)) conn
               = true).
  { apply existsb_exists. exists r. split; [assumption|].
    apply has_key_spec. exact Hr. }
  congruence.
Qed.

Lemma upsert_NoDup (conn : table) (s : summary) :
  NoDup (map key conn) -> NoDup (map key (upsert_summary conn s)).
Proof.
  intros H. rewrite upsert_keys_eq.
  destruct (existsb _ conn) eqn:E; [assumption|].
  apply (Permutation_NoDup (Permutation_cons_append _ _)).
  constructor; [|assumption].
  now apply existsb_has_key_false.
Qed.

(** X16: the upsert keeps the key [(vehicle_id, summary_date)] unique:
    on a table without two rows of one key it yields such a table. *)
Theorem upsert_keeps_key_unique (conn : table) (s : summary) :
  NoDup (map key conn) -> NoDup (map key (upsert_summary conn s)).
Proof. apply upsert_NoDup. Qed.



Lemma upsert_stored_same (conn : table) (s : summary) :
  stored conn (vehicle_id s) (summary_date s) = Some s ->
  upsert_summary conn s = conn.
Proof.
  unfold stored. induction conn as [|r rest IH]; [discriminate|].
  rewrite upsert_cons. cbn [find].
  destruct (has_key (vehicle_id s) (summary_date s) r).
  - intros H. injection H as ->. reflexivity.
  - intros H. rewrite IH by assumption. reflexivity.
Qed.

(** ** The batch driver *)

Lemma summary_key (vid : Z) (d : date) (rows : list point) :
  key (compute_summary vid d rows) = (vid, d).
Proof. destruct rows; reflexivity. Qed.

Section RunFacts.

Variables (telemetry : Z -> date -> list point) (target_date : date).

Let summary_of (vid : Z) : summary :=
  compute_summary vid target_date (telemetry vid target_date).

Lemma run_conn (vehicles : list Z) (st : Run.state) :
  Run.conn (fold_left (run_vehicle telemetry target_date) vehicles st)
  = fold_left (fun t vid => upsert_summary t (summary_of vid)) vehicles
      (Run.conn st).
Proof.
  revert st. induction vehicles as [|v vs IH]; intros st;
    [reflexivity|].
  cbn [fold_left]. rewrite IH. reflexivity.
Qed.

Lemma run_total_points (vehicles : list Z) (st : Run.state) :
  Run.total_points
    (fold_left (run_vehicle telemetry target_date) vehicles st)
  = (Run.total_points st
     + Zsum (map (fun vid =>
                    Z.of_nat (length (telemetry vid target_date)))
               vehicles))%Z.
Proof.
  revert st. induction vehicles as [|v vs IH]; intros st.
  - simpl. lia.
  - cbn [fold_left]. rewrite IH. unfold run_vehicle, Zsum.
    cbn [Run.total_points map fold_right].
    rewrite summary_total_points. lia.
Qed.

Lemma run_total_violations (vehicles : list Z) (st : Run.state) :
  Run.total_violations
    (fold_left (run_vehicle telemetry target_date) vehicles st)
  = (Run.total_violations st
     + Zsum (map (fun vid =>
                    count_if is_violation_dec (telemetry vid target_date))
               vehicles))%Z.
Proof.
  revert st. induction vehicles as [|v vs IH]; intros st.
  - simpl. lia.
  - cbn [fold_left]. rewrite IH. unfold run_vehicle, Zsum.
    cbn [Run.total_violations map fold_right].
    rewrite summary_speeding, summary_critical, count_violations. lia.
Qed.

Lemma stored_after_upserts (vehicles : list Z) (t : table) (vid : Z)
    (d : date) :
  stored (fold_left (fun t v => upsert_summary t (summary_of v))
            vehicles t) vid d
  = if date_eqb d target_date && existsb (Z.eqb vid) vehicles
    then Some (summary_of vid)
    else stored t vid d.
Proof.
  revert t. induction vehicles as [|v vs IH]; intros t.
  - cbn [fold_left existsb]. rewrite andb_false_r. reflexivity.
  - cbn [fold_left existsb]. rewrite IH, stored_upsert.
    assert (Hk : has_key vid d (summary_of v)
                 = date_eqb d target_date && (vid =? v)%Z).
    { unfold has_key, summary_of.
      pose proof (summary_key v target_date
                    (telemetry v target_date)) as Hkey.
      unfold key in Hkey. injection Hkey as -> ->.
      rewrite andb_comm. f_equal.
      - destruct (date_eqb target_date d) eqn:E1,
          (date_eqb d target_date) eqn:E2; try reflexivity.
        + apply date_eqb_eq in E1. subst d.
          rewrite (proj2 (date_eqb_eq _ _) eq_refl) in E2. discriminate.
        + apply date_eqb_eq in E2. subst d.
          rewrite (proj2 (date_eqb_eq _ _) eq_refl) in E1. discriminate.
      - apply Z.eqb_sym. }
    rewrite Hk.
    destruct (date_eqb d target_date); cbn [andb]; [|reflexivity].
    destruct (vid =? v)%Z eqn:Ev; cbn [orb].
    + apply Z.eqb_eq in Ev. subst v.
      destruct (existsb (Z.eqb vid) vs); reflexivity.
    + reflexivity.
Qed.

Lemma upserts_NoDup (vehicles : list Z) (t : table) :
  NoDup (map key t) ->
  NoDup (map key (fold_left (fun t v => upsert_summary t (summary_of v))
                    vehicles t)).
Proof.
  revert t. induction vehicles as [|v vs IH]; intros t H; [assumption|].
  cbn [fold_left]. apply IH. now apply upsert_NoDup.
Qed.

Lemma upserts_length (vehicles : list Z) (t : table) :
  (length t
   <= length (fold_left (fun t v => upsert_summary t (summary_of v))
                vehicles t)
   <= length t + length vehicles)%nat.
Proof.
  revert t. induction vehicles as [|v vs IH]; intros t.
  - simpl. lia.
  - cbn [fold_left length].
    specialize (IH (upsert_summary t (summary_of v))).
    rewrite upsert_length in IH.
    destruct (existsb _ t) in IH; lia.
Qed.

Lemma upserts_fixed (vehicles : list Z) (t : table) :
  (forall v, In v vehicles ->
             stored t v target_date = Some (summary_of v)) ->
  fold_left (fun t v => upsert_summary t (summary_of v)) vehicles t = t.
Proof.
  induction vehicles as [|v vs IH]; intros H; [reflexivity|].
  cbn [fold_left].
  rewrite upsert_stored_same.
  - apply IH. intros w Hw. apply H. now right.
  - pose proof (summary_key v target_date (telemetry v target_date))
      as Hkey.
    unfold key in Hkey. injection Hkey as Hv Hd.
    fold (summary_of v) in Hv, Hd. rewrite Hv, Hd.
    apply H. now left.
Qed.

End RunFacts.

(** X18: the totals [run] logs.  [total_points] is the number of rows
    fetched over all the vehicles, [total_violations] is the number of
    these rows with a speed above 80, and so lies between 0 and
    [total_points]; neither depends on what the summary table held. *)
Theorem run_totals (telemetry : Z -> date -> list point)
    (vehicles : list Z) (conn : table) (target_date : date) :
  let st := run telemetry vehicles conn target_date in
  Run.total_points st
  = Zsum (map (fun vid => Z.of_nat (length (telemetry vid target_date)))
            vehicles)
  /\ Run.total_violations st
     = Zsum (map (fun vid =>
                    count_if is_violation_dec (telemetry vid target_date))
               vehicles)
  /\ (0 <= Run.total_violations st <= Run.total_points st)%Z.
Proof.
  intros st. subst st. unfold run.
  rewrite run_total_points, run_total_violations.
  cbn [Run.total_points Run.total_violations].
  repeat split; try lia.
  - induction vehicles as [|v vs IH]; [simpl; lia|].
    cbn [map Zsum fold_right]. unfold Zsum in IH.
    pose proof (count_if_bounds is_violation_dec
                  (telemetry v target_date)). lia.
  - induction vehicles as [|v vs IH]; [simpl; lia|].
    cbn [map Zsum fold_right]. unfold Zsum in IH.
    pose proof (count_if_bounds is_violation_dec
                  (telemetry v target_date)). lia.
Qed.


(** X20: [run] touches no other row: a key with another date, or with a
    vehicle that is not in the list, holds after the run what it held
    before. *)
Theorem run_leaves_other_rows (telemetry : Z -> date -> list point)
    (vehicles : list Z) (conn : table) (target_date : date) (vid : Z)
    (d : date) :
  d <> target_date \/ ~ In vid vehicles ->
  stored (Run.conn (run telemetry vehicles conn target_date)) vid d
  = stored conn vid d.
Proof.
  intros H. unfold run. rewrite run_conn, stored_after_upserts.
  cbn [Run.conn].
  destruct (date_eqb d target_date) eqn:Ed; cbn [andb]; [|reflexivity].
  destruct (existsb (Z.eqb vid) vehicles) eqn:Ev; [|reflexivity].
  exfalso. destruct H as [H|H].
  - apply H. now apply date_eqb_eq.
  - apply H. apply existsb_exists in Ev. destruct Ev as (v & Hv & Heq).
    apply Z.eqb_eq in Heq. now subst v.
Qed.

(** X21: running the job again on unchanged telemetry changes nothing:
    the second run leaves the table of the first as it is and logs the
    same totals. *)
Theorem run_idempotent (telemetry : Z -> date -> list point)
    (vehicles : list Z) (conn : table) (target_date : date) :
  let st := run telemetry vehicles conn target_date in
  let st' := run telemetry vehicles (Run.conn st) target_date in
  Run.conn st' = Run.conn st
  /\ Run.total_points st' = Run.total_points st
  /\ Run.total_violations st' = Run.total_violations st.
Proof.
  intros st st'. subst st st'. unfold run.
  rewrite !run_total_points, !run_total_violations.
  cbn [Run.total_points Run.total_violations].
  split; [|split; reflexivity].
  rewrite (run_conn telemetry target_date vehicles
             {| Run.conn := Run.conn _ |}).
  cbn [Run.conn]. apply upserts_fixed.
  intros v Hv. rewrite run_conn, stored_after_upserts.
  rewrite (proj2 (date_eqb_eq _ _) eq_refl). cbn [andb].
  assert (He : existsb (Z.eqb v) vehicles = true).
  { apply existsb_exists. exists v. split; [assumption|].
    apply Z.eqb_refl. }
  rewrite He. reflexivity.
Qed.

(** X22: [run] keeps the key of the summary table unique and only adds
    rows: from a table without two rows of one key it yields such a
    table, with at least as many rows and at most one more per
    vehicle. *)
Theorem run_keeps_key_unique (telemetry : Z -> date -> list point)
    (vehicles : list Z) (conn : table) (target_date : date) :
  NoDup (map key conn) ->
  let t := Run.conn (run telemetry vehicles conn target_date) in
  NoDup (map key t)
  /\ (length conn <= length t <= length conn + length vehicles)%nat.
Proof.
  intros H t. subst t. unfold run. rewrite run_conn. cbn [Run.conn].
  split.
  - now apply upserts_NoDup.
  - apply upserts_length.
Qed.

(** ** Further instances *)

Lemma early_late_sorted : Sorted ts_le [early_point; late_point].
Proof.
  repeat constructor. unfold ts_le. simpl. lia.
Qed.


Lemma driving_minutes_within_a_day_witness :
  Sorted ts_le [early_point; late_point]
  /\ (ts (last [late_point] early_point) - ts early_point
      <= 86400000000)%Z
  /\ total_driving_minutes
       (compute_summary 7 sample_date [early_point; late_point]) <= 1440.
Proof.
  assert (H : (ts (last [late_point] early_point) - ts early_point
               <= 86400000000)%Z) by (simpl; lia).
  split; [exact early_late_sorted|]. split; [exact H|].
  exact (driving_minutes_within_a_day 7 sample_date early_point
           [late_point] early_late_sorted H).
Defined.

Lemma out_of_order_driving_time_witness :
  engine_status early_point = true
  /\ (ts early_point < ts late_point)%Z
  /\ Loop.driving_seconds (loop_result [late_point; early_point]) < 0.
Proof.
  assert (H : (ts early_point < ts late_point)%Z) by (simpl; lia).
  split; [reflexivity|]. split; [exact H|].
  exact (proj1 (proj2 (out_of_order_driving_time 7 sample_date
                         late_point early_point eq_refl H))).
Defined.


Lemma haversine_along_meridian_witness :
  Rabs (11 - 10) <= 180
  /\ haversine_km 10 106 11 106 = 6371 * (Rabs (11 - 10) * PI / 180).
Proof.
  assert (H : Rabs (11 - 10) <= 180) by (apply Rabs_le; lra).
  split; [exact H|].
  exact (haversine_along_meridian 10 11 106 H).
Defined.

Lemma jump_filter_on_meridian_witness :
  longitude early_point = longitude late_point
  /\ Rabs (latitude late_point - latitude early_point) <= 180
  /\ 449 / 1000 < 9000 / (6371 * PI) < 450 / 1000.
Proof.
  assert (H : Rabs (latitude late_point - latitude early_point) <= 180).
  { unfold late_point, early_point. cbn [latitude].
    apply Rabs_le. lra. }
  split; [reflexivity|]. split; [exact H|].
  exact (proj2 (jump_filter_on_meridian early_point late_point
                  eq_refl H)).
Defined.

Lemma upsert_keeps_key_unique_witness :
  NoDup (map key [compute_summary 7 sample_date []])
  /\ NoDup (map key (upsert_summary [compute_summary 7 sample_date []]
                       (compute_summary 7 sample_date (scenario 0)))).
Proof.
  assert (H : NoDup (map key [compute_summary 7 sample_date []])).
  { simpl. constructor; [simpl; tauto | constructor]. }
  split; [exact H|].
  exact (upsert_keeps_key_unique _ _ H).
Defined.



Lemma run_leaves_other_rows_witness :
  (sample_date <> sample_date \/ ~ In 9%Z sample_vehicles)
  /\ stored (Run.conn (run sample_telemetry sample_vehicles []
                         sample_date)) 9 sample_date
     = stored [] 9 sample_date.
Proof.
  assert (H : sample_date <> sample_date \/ ~ In 9%Z sample_vehicles).
  { right. simpl. intros [H|[H|[]]]; discriminate. }
  split; [exact H|].
  exact (run_leaves_other_rows sample_telemetry sample_vehicles []
           sample_date 9 sample_date H).
Defined.

Lemma run_keeps_key_unique_witness :
  NoDup (map key (@nil summary))
  /\ NoDup (map key (Run.conn (run sample_telemetry sample_vehicles []
                                 sample_date))).
Proof.
  assert (H : NoDup (map key (@nil summary))) by constructor.
  split; [exact H|].
  exact (proj1 (run_keeps_key_unique sample_telemetry sample_vehicles []
                  sample_date H)).
Defined.
